(** * CCSDS packet decoder (package ccsds, file ccsds/ccsds.go)

    A shallow embedding of [Decoder.ReadPacket] and [Decoder.ReadAllPackets]
    together with the two pieces of the Go standard library they rest on:
    [io.ReadFull] over an [io.Reader], and [binary.BigEndian.Uint16].

    Unsigned Go integers are integers of [Z] with the wrap-around written
    out ([u16]); bytes on the wire are [Byte.byte]; the reader that a
    decoder mutates is threaded explicitly through every call. *)

From Stdlib Require Import ZArith List Bool Lia.
From Stdlib Require String.
From Stdlib Require Import Strings.Byte.
From Equations.Prop Require Import Equations Logic.
Import ListNotations.

Local Open Scope Z_scope.

(** ** Fixed-width unsigned arithmetic *)

(** [uint16] results are taken modulo [2^16].  The [uint8] expressions of
    the decoder are masks followed by right shifts and cannot leave
    [uint8]. *)
Definition u16 (z : Z) : Z := z mod 65536.

(** The value of a byte as an unsigned integer. *)
Definition byteZ (b : byte) : Z := Z.of_N (Byte.to_N b).

(** ** Package io: errors, readers, ReadFull *)

Module io.

(** Go error values.  [EOF] and [ErrUnexpectedEOF] are the two sentinels of
    package io; [Fault] is any other error a reader may report; [Wrapped]
    is an error whose [Unwrap] method gives [inner]. *)
Inductive error : Type :=
| EOF
| ErrUnexpectedEOF
| Fault (msg : String.string)
| Wrapped (msg : String.string) (inner : error).

(** [err == target] on error values. *)
Fixpoint error_eqb (e1 e2 : error) : bool :=
  match e1, e2 with
  | EOF, EOF => true
  | ErrUnexpectedEOF, ErrUnexpectedEOF => true
  | Fault m1, Fault m2 => String.eqb m1 m2
  | Wrapped m1 i1, Wrapped m2 i2 => String.eqb m1 m2 && error_eqb i1 i2
  | _, _ => false
  end.

(** An [io.Reader] seen through [ReadFull]: the bytes it still delivers,
    and the error it reports on every read once they are used up ([EOF]
    for a [bytes.Reader] and any other source that simply ends).  The
    record is exact for a [bytes.Reader]; of other sources it covers those
    that deliver a finite run of bytes and then keep reporting one error.
    A source that reports an error and delivers bytes again afterwards is
    not of this kind. *)
Record Reader : Type := mkReader {
  pending : list byte;
  final : error
}.

(** [io.ReadFull(r, buf)] with [len(buf) = n]: the bytes stored in [buf],
    the error, and the reader afterwards.  With enough bytes it returns
    them and no error.  Otherwise it drains the reader; the error is the
    reader's own, except that [EOF] after at least one byte has been read
    becomes [ErrUnexpectedEOF]. *)
Definition ReadFull (r : Reader) (n : nat) : list byte * option error * Reader :=
  if (n <=? length (pending r))%nat then
    (firstn n (pending r), None, mkReader (skipn n (pending r)) (final r))
  else
    (pending r,
     Some (match pending r with
           | [] => final r
           | _ :: _ => if error_eqb (final r) EOF then ErrUnexpectedEOF else final r
           end),
     mkReader [] (final r)).

End io.

(** ** Package errors *)

Module errors.

(** [errors.Is(err, target)]: [err] or an error in its unwrap chain equals
    [target]. *)
Fixpoint Is (err target : io.error) : bool :=
  io.error_eqb err target ||
  match err with
  | io.Wrapped _ inner => Is inner target
  | _ => false
  end.

End errors.

(** ** Package encoding/binary *)

Module binary.

(** [binary.BigEndian.Uint16([]byte{b0, b1})], that is
    [uint16(b1) | uint16(b0)<<8]. *)
Definition BigEndian_Uint16 (b0 b1 : Z) : Z :=
  Z.lor b1 (u16 (Z.shiftl b0 8)).

End binary.

(** ** Package ccsds *)

(** [Packet]: a CCSDS packet with its header and data. *)
Record Packet : Type := mkPacket {
  Version : Z;        (* uint8 *)
  Type_ : Z;          (* uint8, field Type *)
  SecondaryHdr : bool;
  APID : Z;           (* uint16 *)
  SequenceFlags : Z;  (* uint8 *)
  SequenceCount : Z;  (* uint16 *)
  DataLen : Z;        (* uint16 *)
  Data : list byte
}.

(** [Decoder]: reads and decodes CCSDS packets from an input stream. *)
Record Decoder : Type := mkDecoder {
  r : io.Reader
}.

Definition NewDecoder (rd : io.Reader) : Decoder := mkDecoder rd.

(** [header[i]] for the 6-byte header buffer, as an unsigned integer. *)
Definition hdr (header : list byte) (i : nat) : Z :=
  byteZ (nth i header Byte.x00).

(** The 16-bit length field as it stands on the wire (bytes 4 and 5). *)
Definition rawDataLen (header : list byte) : Z :=
  binary.BigEndian_Uint16 (hdr header 4) (hdr header 5).

(** The part of [ReadPacket] that fills the primary-header fields of a fresh
    [Packet] from the header buffer; [Data] is still nil. *)
Definition parseHeader (header : list byte) : Packet :=
  {| Version := Z.shiftr (Z.land (hdr header 0) 0xE0) 5;
     Type_ := Z.shiftr (Z.land (hdr header 0) 0x10) 4;
     SecondaryHdr := negb (Z.land (hdr header 0) 0x08 =? 0);
     APID := Z.lor (u16 (Z.shiftl (Z.land (hdr header 0) 0x07) 8)) (hdr header 1);
     SequenceFlags := Z.shiftr (Z.land (hdr header 2) 0xC0) 6;
     SequenceCount :=
       binary.BigEndian_Uint16 (Z.land (hdr header 2) 0x3F) (hdr header 3);
     DataLen := u16 (rawDataLen header + 1);
     Data := [] |}.

Definition setData (pkt : Packet) (data : list byte) : Packet :=
  {| Version := Version pkt; Type_ := Type_ pkt;
     SecondaryHdr := SecondaryHdr pkt; APID := APID pkt;
     SequenceFlags := SequenceFlags pkt; SequenceCount := SequenceCount pkt;
     DataLen := DataLen pkt; Data := data |}.

(** [Decoder.ReadPacket]: the packet or the error, and the decoder with its
    reader advanced. *)
Definition ReadPacket (d : Decoder) : (Packet + io.error) * Decoder :=
  let '(header, err, r1) := io.ReadFull (r d) 6 in
  match err with
  | Some e =>
      if io.error_eqb e io.EOF then (inr io.EOF, mkDecoder r1)
      else (inr e, mkDecoder r1)
  | None =>
      let pkt := parseHeader header in
      if 0 <? DataLen pkt then
        let '(data, err2, r2) := io.ReadFull r1 (Z.to_nat (DataLen pkt)) in
        match err2 with
        | Some e => (inr e, mkDecoder r2)
        | None => (inl (setData pkt data), mkDecoder r2)
        end
      else (inl (setData pkt []), mkDecoder r1)
  end.

(** Bytes the decoder's reader still has to deliver. *)
Definition remaining (d : Decoder) : nat := length (io.pending (r d)).

(** [Decoder.ReadAllPackets]: the loop reads packets until the first error;
    [packets] is the slice accumulated so far.  It ends because every
    successful [ReadPacket] uses up at least the six header bytes. *)
Equations? ReadAllPackets_loop (d : Decoder) (packets : list Packet)
  : list Packet * option io.error * Decoder by wf (remaining d) lt :=
  ReadAllPackets_loop d packets with inspect (ReadPacket d) := {
    | exist _ (inr err, d') _ =>
        if errors.Is err io.EOF then (packets, None, d')
        else (packets, Some err, d');
    | exist _ (inl pkt, d') Hread =>
        ReadAllPackets_loop d' (packets ++ [pkt]) }.
Proof.
  revert Hread. unfold ReadPacket, io.ReadFull, remaining.
  destruct (io.pending (r d)) as [|b0 [|b1 [|b2 [|b3 [|b4 [|b5 rest]]]]]];
    cbn [length Nat.leb].
  1-6: destruct (io.error_eqb _ io.EOF); discriminate.
  cbv beta iota zeta. cbn [io.pending io.final skipn].
  destruct (0 <? _).
  - destruct (_ <=? length rest)%nat; [|discriminate].
    intros [= _ <-]. cbn [r io.pending]. rewrite length_skipn. lia.
  - intros [= _ <-]. cbn [r io.pending]. lia.
Qed.

Definition ReadAllPackets (d : Decoder) : list Packet * option io.error * Decoder :=
  ReadAllPackets_loop d [].

(** [n] successive calls of [ReadPacket], with the result of each. *)
Fixpoint readN (n : nat) (d : Decoder) : list (Packet + io.error) * Decoder :=
  match n with
  | O => ([], d)
  | S n' =>
      let '(res, d1) := ReadPacket d in
      let '(rest, d2) := readN n' d1 in
      (res :: rest, d2)
  end.

(** [reads d ps d']: successive calls of [ReadPacket] starting in [d] return
    the packets [ps], one after the other, and leave the decoder in [d']. *)
Inductive reads : Decoder -> list Packet -> Decoder -> Prop :=
| reads_nil (d : Decoder) : reads d [] d
| reads_cons (d d1 d2 : Decoder) (pkt : Packet) (ps : list Packet) :
    ReadPacket d = (inl pkt, d1) -> reads d1 ps d2 -> reads d (pkt :: ps) d2.

(** A decoder over a [bytes.Reader] holding [bs]. *)
Definition bytesDecoder (bs : list byte) : Decoder :=
  NewDecoder (io.mkReader bs io.EOF).

(** A packet as it travels: the six header bytes and the payload. *)
Definition frame : Type := list byte * list byte.

(** The wire format: a 6-byte primary header followed by as many payload
    bytes as the length field says, which is its value plus one. *)
Definition wf_frame (f : frame) : Prop :=
  length (fst f) = 6%nat /\
  Z.of_nat (length (snd f)) = rawDataLen (fst f) + 1.

(** Frames laid back to back. *)
Definition stream (fs : list frame) : list byte :=
  concat (map (fun f => fst f ++ snd f) fs).

(** The packet a frame stands for. *)
Definition packetOf (f : frame) : Packet :=
  setData (parseHeader (fst f)) (snd f).

(** ** Fixtures *)

(** The packet of the repository's tests, hex [08013FFF0002DEADBE]. *)
Definition fixture : list byte :=
  [x08; x01; x3f; xff; x00; x02; xde; xad; xbe].

Definition fixturePacket : Packet :=
  {| Version := 0; Type_ := 0; SecondaryHdr := true; APID := 1;
     SequenceFlags := 0; SequenceCount := 0x3FFF; DataLen := 3;
     Data := [xde; xad; xbe] |}.

(** The same packet as a frame: header [08 01 3F FF 00 02], payload
    [DE AD BE]. *)
Definition fixtureFrame : frame := (firstn 6 fixture, skipn 6 fixture).

(** A source fault, as a network reader would report it. *)
Module faults.
Import String.
Definition reset : io.error := io.Fault "connection reset"%string.
Definition wrappedEOF : io.error := io.Wrapped "read failed"%string io.EOF.
End faults.

(** A header whose length field is [0xFFFF], the [65536] payload bytes that
    go with it, and the frame they make. *)
Definition maxHeader : list byte := [x00; x00; x00; x00; xff; xff].
Definition maxPayload : list byte := repeat x00 (Z.to_nat 65536).
Definition maxFrame : frame := (maxHeader, maxPayload).

(** A packet with every header field zero. *)
Definition zeroPacket (len : Z) (data : list byte) : Packet :=
  {| Version := 0; Type_ := 0; SecondaryHdr := false; APID := 0;
     SequenceFlags := 0; SequenceCount := 0; DataLen := len; Data := data |}.

(** ** Measures and invariants of decoded packets *)

(** The bytes that the packets [ps] took from the stream: six header bytes
    and the payload, for each. *)
Definition consumed (ps : list Packet) : nat :=
  fold_right (fun p n => (6 + length (Data p) + n)%nat) 0%nat ps.

(** What holds of a packet's fields once it is decoded: every header field
    within its bit width, and as many payload bytes as [DataLen] says. *)
Definition packet_ok (p : Packet) : Prop :=
  Z.of_nat (length (Data p)) = DataLen p /\
  0 <= Version p <= 7 /\
  0 <= Type_ p <= 1 /\
  0 <= APID p <= 2047 /\
  0 <= SequenceFlags p <= 3 /\
  0 <= SequenceCount p <= 16383 /\
  0 <= DataLen p <= 65535.

(** The error [ReadAllPackets] hands on: none for an error that
    [errors.Is] takes for [io.EOF]. *)
Definition surfaced (err : io.error) : option io.error :=
  if errors.Is err io.EOF then None else Some err.

(** ** Bytes and bit fields *)

Lemma byteZ_range (x : byte) : 0 <= byteZ x < 256.
Proof.
  unfold byteZ. pose proof (Byte.to_N_bounded x). lia.
Qed.

Lemma log2_lt_width (n x : Z) : 0 < n -> 0 <= x < 2 ^ n -> Z.log2 x < n.
Proof.
  intros Hn Hx.
  destruct (Z.eq_dec x 0) as [->|Hx0]; [cbn; lia|].
  apply Z.log2_lt_pow2; lia.
Qed.

Lemma lor_lt_pow2 (n a b : Z) :
  0 < n -> 0 <= a < 2 ^ n -> 0 <= b < 2 ^ n -> 0 <= Z.lor a b < 2 ^ n.
Proof.
  intros Hn Ha Hb.
  assert (H0 : 0 <= Z.lor a b) by (apply Z.lor_nonneg; lia).
  split; [exact H0|].
  destruct (Z.eq_dec (Z.lor a b) 0) as [->|Hne]; [lia|].
  apply Z.log2_lt_pow2; [lia|].
  rewrite Z.log2_lor by lia.
  apply Z.max_lub_lt; apply log2_lt_width; assumption.
Qed.

(** A value below [2^8] shifted left by eight bits shares no bit with a
    second value below [2^8]. *)
Lemma land_shifted_byte (hi lo : Z) :
  0 <= lo < 256 -> Z.land (hi * 256) lo = 0.
Proof.
  intros Hlo. apply Z.bits_inj'. intros n Hn.
  rewrite Z.land_spec, Z.bits_0.
  destruct (Z.ltb_spec n 8) as [Hlt|Hge].
  - change 256 with (2 ^ 8).
    rewrite Z.mul_pow2_bits_low by lia. reflexivity.
  - rewrite (Z.bits_above_log2 lo n), andb_false_r; [reflexivity|lia|].
    apply Z.lt_le_trans with 8; [|lia].
    apply log2_lt_width; [lia|exact Hlo].
Qed.

(** For [hi] below [2^8] nothing is lost in the 16-bit shift, and the two
    bytes sit side by side. *)
Lemma BigEndian_Uint16_spec (hi lo : Z) :
  0 <= hi < 256 -> 0 <= lo < 256 ->
  binary.BigEndian_Uint16 hi lo = Z.lor (Z.shiftl hi 8) lo /\
  binary.BigEndian_Uint16 hi lo = hi * 256 + lo.
Proof.
  intros Hhi Hlo. unfold binary.BigEndian_Uint16, u16.
  rewrite Z.shiftl_mul_pow2 by lia. change (2 ^ 8) with 256.
  rewrite Z.mod_small by lia.
  split; [apply Z.lor_comm|].
  rewrite Z.lor_comm, <- Z.lxor_lor by (apply land_shifted_byte; exact Hlo).
  symmetry. apply Z.add_nocarry_lxor, land_shifted_byte, Hlo.
Qed.

(** What the masks and shifts of [parseHeader] do to one byte: masking
    before the shift or after it is the same, and each field fits its
    width. *)
Lemma byte_fields (x : byte) :
  Z.shiftr (Z.land (byteZ x) 0xE0) 5 = Z.land (Z.shiftr (byteZ x) 5) 7 /\
  Z.shiftr (Z.land (byteZ x) 0x10) 4 = Z.land (Z.shiftr (byteZ x) 4) 1 /\
  negb (Z.land (byteZ x) 0x08 =? 0) = negb (Z.land (Z.shiftr (byteZ x) 3) 1 =? 0) /\
  Z.shiftr (Z.land (byteZ x) 0xC0) 6 = Z.land (Z.shiftr (byteZ x) 6) 3 /\
  0 <= Z.land (Z.shiftr (byteZ x) 5) 7 <= 7 /\
  0 <= Z.land (Z.shiftr (byteZ x) 4) 1 <= 1 /\
  0 <= Z.land (Z.shiftr (byteZ x) 6) 3 <= 3 /\
  0 <= Z.land (byteZ x) 0x07 <= 7 /\
  0 <= Z.land (byteZ x) 0x3F <= 63.
Proof.
  destruct x; vm_compute; repeat split; intros H; discriminate H.
Qed.

Section HeaderFields.

Variable header : list byte.

Lemma hdr_range (i : nat) : 0 <= hdr header i < 256.
Proof. apply byteZ_range. Qed.

(** The wire length field is a 16-bit value. *)
Lemma rawDataLen_range : 0 <= rawDataLen header <= 65535.
Proof.
  unfold rawDataLen.
  destruct (BigEndian_Uint16_spec (hdr header 4) (hdr header 5)
              (hdr_range 4) (hdr_range 5)) as [_ ->].
  pose proof (hdr_range 4). pose proof (hdr_range 5). lia.
Qed.

(** The stored length is the wire value plus one, modulo [2^16]. *)
Lemma DataLen_parseHeader :
  DataLen (parseHeader header) = (rawDataLen header + 1) mod 65536.
Proof. reflexivity. Qed.

Lemma DataLen_range : 0 <= DataLen (parseHeader header) <= 65535.
Proof.
  rewrite DataLen_parseHeader.
  pose proof (Z.mod_pos_bound (rawDataLen header + 1) 65536). lia.
Qed.

(** Below the largest wire value the addition does not wrap. *)
Lemma DataLen_no_wrap :
  rawDataLen header < 65535 ->
  DataLen (parseHeader header) = rawDataLen header + 1.
Proof.
  intros Hlt. rewrite DataLen_parseHeader.
  pose proof rawDataLen_range. apply Z.mod_small. lia.
Qed.

(** At the largest wire value it wraps to zero. *)
Lemma DataLen_wrap :
  rawDataLen header = 65535 -> DataLen (parseHeader header) = 0.
Proof.
  intros Heq. rewrite DataLen_parseHeader, Heq. reflexivity.
Qed.

Lemma APID_parseHeader :
  APID (parseHeader header) =
    Z.lor (Z.shiftl (Z.land (hdr header 0) 0x07) 8) (hdr header 1) /\
  0 <= APID (parseHeader header) <= 2047.
Proof.
  cbn [APID parseHeader]. unfold hdr at 1 3 4.
  destruct (byte_fields (nth 0 header x00)) as (_ & _ & _ & _ & _ & _ & _ & H7 & _).
  fold (hdr header 0) in *.
  pose proof (hdr_range 1) as H1.
  assert (Hs : Z.shiftl (Z.land (hdr header 0) 0x07) 8
               = Z.land (hdr header 0) 0x07 * 256)
    by (rewrite Z.shiftl_mul_pow2 by lia; reflexivity).
  unfold u16. rewrite Hs, Z.mod_small by lia.
  split; [reflexivity|].
  assert (0 <= Z.lor (Z.land (hdr header 0) 7 * 256) (hdr header 1) < 2 ^ 11)
    by (apply lor_lt_pow2; change (2 ^ 11) with 2048; lia).
  change (2 ^ 11) with 2048 in *. lia.
Qed.

Lemma SequenceCount_parseHeader :
  SequenceCount (parseHeader header) =
    Z.lor (Z.shiftl (Z.land (hdr header 2) 0x3F) 8) (hdr header 3) /\
  0 <= SequenceCount (parseHeader header) <= 16383.
Proof.
  cbn [SequenceCount parseHeader].
  destruct (byte_fields (nth 2 header x00)) as (_ & _ & _ & _ & _ & _ & _ & _ & H63).
  fold (hdr header 2) in *.
  pose proof (hdr_range 3) as H3.
  destruct (BigEndian_Uint16_spec (Z.land (hdr header 2) 0x3F) (hdr header 3))
    as [Hlor Hsum]; [lia|lia|].
  split; [exact Hlor|]. rewrite Hsum. lia.
Qed.

Lemma Version_parseHeader :
  Version (parseHeader header) = Z.land (Z.shiftr (hdr header 0) 5) 7 /\
  0 <= Version (parseHeader header) <= 7.
Proof.
  cbn [Version parseHeader]. unfold hdr.
  destruct (byte_fields (nth 0 header x00)) as (-> & _ & _ & _ & Hr & _).
  split; [reflexivity|exact Hr].
Qed.

Lemma Type_parseHeader :
  Type_ (parseHeader header) = Z.land (Z.shiftr (hdr header 0) 4) 1 /\
  (Type_ (parseHeader header) = 0 \/ Type_ (parseHeader header) = 1).
Proof.
  cbn [Type_ parseHeader]. unfold hdr.
  destruct (byte_fields (nth 0 header x00)) as (_ & -> & _ & _ & _ & Hr & _).
  split; [reflexivity|lia].
Qed.

Lemma SecondaryHdr_parseHeader :
  SecondaryHdr (parseHeader header)
  = negb (Z.land (Z.shiftr (hdr header 0) 3) 1 =? 0).
Proof.
  cbn [SecondaryHdr parseHeader]. unfold hdr.
  destruct (byte_fields (nth 0 header x00)) as (_ & _ & -> & _).
  reflexivity.
Qed.

Lemma SequenceFlags_parseHeader :
  SequenceFlags (parseHeader header) = Z.land (Z.shiftr (hdr header 2) 6) 3 /\
  0 <= SequenceFlags (parseHeader header) <= 3.
Proof.
  cbn [SequenceFlags parseHeader]. unfold hdr.
  destruct (byte_fields (nth 2 header x00))
    as (_ & _ & _ & -> & _ & _ & Hr & _).
  split; [reflexivity|exact Hr].
Qed.

End HeaderFields.

(** ** ReadFull *)

Lemma ReadFull_app (bs rest : list byte) (fin : io.error) :
  io.ReadFull (io.mkReader (bs ++ rest) fin) (length bs)
  = (bs, None, io.mkReader rest fin).
Proof.
  unfold io.ReadFull. cbn [io.pending io.final].
  rewrite length_app.
  replace (length bs <=? length bs + length rest)%nat with true
    by (symmetry; apply Nat.leb_le; lia).
  rewrite firstn_app, Nat.sub_diag, firstn_all, app_nil_r.
  rewrite skipn_app, Nat.sub_diag, skipn_all. reflexivity.
Qed.

Lemma ReadFull_ok_inv (rd rd' : io.Reader) (n : nat) (bs : list byte) :
  io.ReadFull rd n = (bs, None, rd') ->
  io.pending rd = bs ++ io.pending rd' /\ length bs = n /\
  io.final rd' = io.final rd.
Proof.
  unfold io.ReadFull.
  destruct (n <=? length (io.pending rd))%nat eqn:E; [|discriminate].
  apply Nat.leb_le in E. intros [= <- <-]. cbn [io.pending io.final].
  rewrite firstn_skipn, length_firstn. repeat split. lia.
Qed.

(** ** ReadPacket *)

Lemma hdr_app (header rest : list byte) (i : nat) :
  (i < length header)%nat -> hdr (header ++ rest) i = hdr header i.
Proof.
  intros Hi. unfold hdr. rewrite app_nth1 by exact Hi. reflexivity.
Qed.

(** Only the first six bytes of the buffer matter to [parseHeader]. *)
Lemma parseHeader_app (header rest : list byte) :
  length header = 6%nat -> parseHeader (header ++ rest) = parseHeader header.
Proof.
  intros H6. unfold parseHeader, rawDataLen.
  rewrite !hdr_app by lia. reflexivity.
Qed.

Lemma rawDataLen_app (header rest : list byte) :
  length header = 6%nat -> rawDataLen (header ++ rest) = rawDataLen header.
Proof.
  intros H6. unfold rawDataLen. rewrite !hdr_app by lia. reflexivity.
Qed.

(** A header and the payload it announces, with anything behind them,
    decode to the packet, and the reader stands behind the payload. *)
Lemma ReadPacket_frame (header data rest : list byte) (fin : io.error) :
  length header = 6%nat ->
  Z.of_nat (length data) = DataLen (parseHeader header) ->
  ReadPacket (NewDecoder (io.mkReader (header ++ data ++ rest) fin))
  = (inl (setData (parseHeader header) data),
     NewDecoder (io.mkReader rest fin)).
Proof.
  intros H6 Hlen. unfold ReadPacket, NewDecoder. cbn [r].
  rewrite <- H6 at 1. rewrite ReadFull_app.
  destruct (0 <? DataLen (parseHeader header)) eqn:Epos.
  - rewrite <- Hlen, Nat2Z.id, ReadFull_app. reflexivity.
  - apply Z.ltb_ge in Epos.
    destruct data as [|x data]; [reflexivity|].
    cbn [length] in Hlen. lia.
Qed.

(** Every packet that [ReadPacket] returns comes from such a header and
    payload at the front of the reader. *)
Lemma ReadPacket_inl_inv (d d' : Decoder) (pkt : Packet) :
  ReadPacket d = (inl pkt, d') ->
  exists header data : list byte,
    io.pending (r d) = header ++ data ++ io.pending (r d') /\
    length header = 6%nat /\
    Z.of_nat (length data) = DataLen (parseHeader header) /\
    pkt = setData (parseHeader header) data /\
    io.final (r d') = io.final (r d).
Proof.
  unfold ReadPacket.
  destruct (io.ReadFull (r d) 6) as [[header [e|]] r1] eqn:E1.
  { destruct (io.error_eqb e io.EOF); discriminate. }
  apply ReadFull_ok_inv in E1. destruct E1 as (Hp & H6 & Hf).
  destruct (0 <? DataLen (parseHeader header)) eqn:Epos.
  - destruct (io.ReadFull r1 _) as [[data [e|]] r2] eqn:E2; [discriminate|].
    apply ReadFull_ok_inv in E2. destruct E2 as (Hp2 & Hn & Hf2).
    intros [= <- <-]. exists header, data. cbn [r].
    apply Z.ltb_lt in Epos.
    rewrite Hp, Hp2, Hn, Z2Nat.id by lia. repeat split; congruence.
  - intros [= <- <-]. exists header, []. cbn [r length app].
    apply Z.ltb_ge in Epos. pose proof (DataLen_range header).
    repeat split; try assumption. lia.
Qed.

(** Below the largest wire value a returned packet has the wire value plus
    one as its length, and as many payload bytes: one at least. *)
Lemma ReadPacket_below_max (d d' : Decoder) (pkt : Packet) :
  ReadPacket d = (inl pkt, d') ->
  rawDataLen (io.pending (r d)) < 65535 ->
  DataLen pkt = rawDataLen (io.pending (r d)) + 1 /\
  Z.of_nat (length (Data pkt)) = rawDataLen (io.pending (r d)) + 1 /\
  Data pkt <> [] /\
  length (io.pending (r d)) = (6 + length (Data pkt) + length (io.pending (r d')))%nat.
Proof.
  intros Hread.
  destruct (ReadPacket_inl_inv _ _ _ Hread)
    as (header & data & Hp & H6 & Hlen & -> & _).
  rewrite Hp, rawDataLen_app by exact H6. intros Hlt.
  cbn [Data DataLen setData].
  rewrite DataLen_no_wrap in * by exact Hlt.
  pose proof (rawDataLen_range header) as Hraw.
  repeat split; try assumption.
  - intros ->. cbn [length] in Hlen. lia.
  - rewrite !length_app. lia.
Qed.

(** At the end of a source that simply ends, [ReadPacket] reports [EOF] and
    leaves the decoder as it was. *)
Lemma ReadPacket_exhausted :
  ReadPacket (bytesDecoder []) = (inr io.EOF, bytesDecoder []).
Proof. reflexivity. Qed.

(** A header whose payload has begun but stops short: the error is
    [ErrUnexpectedEOF]. *)
Lemma ReadPacket_short_payload (header data : list byte) :
  length header = 6%nat -> data <> [] ->
  Z.of_nat (length data) < DataLen (parseHeader header) ->
  ReadPacket (bytesDecoder (header ++ data))
  = (inr io.ErrUnexpectedEOF, bytesDecoder []).
Proof.
  intros H6 Hne Hlt. unfold ReadPacket, bytesDecoder, NewDecoder. cbn [r].
  rewrite <- H6 at 1. rewrite ReadFull_app.
  replace (0 <? DataLen (parseHeader header)) with true
    by (symmetry; apply Z.ltb_lt; lia).
  unfold io.ReadFull. cbn [io.pending io.final].
  replace (Z.to_nat (DataLen (parseHeader header)) <=? length data)%nat
    with false by (symmetry; apply Nat.leb_gt; lia).
  destruct data; [contradiction|reflexivity].
Qed.

(** A header whose payload is missing altogether: the error is the same
    [EOF] as at the end of a stream. *)
Lemma ReadPacket_missing_payload (header : list byte) :
  length header = 6%nat -> 0 < DataLen (parseHeader header) ->
  ReadPacket (bytesDecoder header) = (inr io.EOF, bytesDecoder []).
Proof.
  intros H6 Hpos. unfold ReadPacket, bytesDecoder, NewDecoder. cbn [r].
  rewrite <- (app_nil_r header) at 1.
  rewrite <- H6 at 1. rewrite ReadFull_app.
  replace (0 <? DataLen (parseHeader header)) with true
    by (symmetry; apply Z.ltb_lt; lia).
  unfold io.ReadFull. cbn [io.pending io.final length].
  replace (Z.to_nat (DataLen (parseHeader header)) <=? 0)%nat
    with false by (symmetry; apply Nat.leb_gt; lia).
  reflexivity.
Qed.

(** Over a source that simply ends, the only errors of [ReadPacket] are
    the two sentinels of package io. *)
Lemma ReadPacket_error_kinds (d d' : Decoder) (err : io.error) :
  io.final (r d) = io.EOF ->
  ReadPacket d = (inr err, d') ->
  err = io.EOF \/ err = io.ErrUnexpectedEOF.
Proof.
  intros Hfin. unfold ReadPacket, io.ReadFull. rewrite Hfin.
  destruct (6 <=? length (io.pending (r d)))%nat.
  - cbv beta iota zeta. destruct (0 <? _); [|discriminate].
    cbn [io.pending io.final].
    destruct (_ <=? length (skipn 6 _))%nat; [discriminate|].
    destruct (skipn 6 _); intros [= <- _]; auto.
  - destruct (io.pending (r d)); cbn [io.error_eqb];
      intros [= <- _]; auto.
Qed.

(** ** The loop of ReadAllPackets *)

(** One turn of the loop after a packet: it is appended and the loop goes
    on from the advanced decoder. *)
Lemma ReadAllPackets_loop_packet (d d' : Decoder) (pkt : Packet)
      (packets : list Packet) :
  ReadPacket d = (inl pkt, d') ->
  ReadAllPackets_loop d packets = ReadAllPackets_loop d' (packets ++ [pkt]).
Proof.
  intros Hread. rewrite ReadAllPackets_loop_equation_1.
  destruct (inspect (ReadPacket d)) as [[[p|e] d1] H1];
    pose proof H1 as H2; rewrite Hread in H2; inversion H2; subst.
  reflexivity.
Qed.

(** One turn of the loop after an error: the loop ends, with no error when
    [errors.Is(err, io.EOF)] and with [err] otherwise. *)
Lemma ReadAllPackets_loop_error (d d' : Decoder) (err : io.error)
      (packets : list Packet) :
  ReadPacket d = (inr err, d') ->
  ReadAllPackets_loop d packets =
    if errors.Is err io.EOF then (packets, None, d')
    else (packets, Some err, d').
Proof.
  intros Hread. rewrite ReadAllPackets_loop_equation_1.
  destruct (inspect (ReadPacket d)) as [[[p|e] d1] H1];
    pose proof H1 as H2; rewrite Hread in H2; inversion H2; subst.
  reflexivity.
Qed.

(** The loop follows the successive reads. *)
Lemma ReadAllPackets_loop_reads (d d' : Decoder) (ps : list Packet) :
  reads d ps d' ->
  forall packets : list Packet,
    ReadAllPackets_loop d packets = ReadAllPackets_loop d' (packets ++ ps).
Proof.
  induction 1 as [d|d d1 d2 pkt ps Hread _ IH]; intros packets.
  - rewrite app_nil_r. reflexivity.
  - rewrite (ReadAllPackets_loop_packet _ _ _ _ Hread), IH, <- app_assoc.
    reflexivity.
Qed.

(** [readN] over the relation [reads]. *)
Lemma reads_readN (d d' : Decoder) (ps : list Packet) :
  reads d ps d' -> readN (length ps) d = (map inl ps, d').
Proof.
  induction 1 as [d|d d1 d2 pkt ps Hread _ IH]; [reflexivity|].
  cbn [readN length map]. rewrite Hread, IH. reflexivity.
Qed.

Lemma readN_app (n m : nat) (d : Decoder) :
  readN (n + m) d =
    let '(xs, d1) := readN n d in
    let '(ys, d2) := readN m d1 in (xs ++ ys, d2).
Proof.
  revert d. induction n as [|n IH]; intros d; cbn [readN Nat.add].
  - destruct (readN m d). reflexivity.
  - destruct (ReadPacket d) as [res d1]. rewrite IH.
    destruct (readN n d1) as [xs d2]. destruct (readN m d2). reflexivity.
Qed.

(** Once drained, a source that simply ends gives [EOF] however often it is
    asked. *)
Lemma readN_exhausted (k : nat) :
  readN k (bytesDecoder []) = (repeat (inr io.EOF) k, bytesDecoder []).
Proof.
  induction k as [|k IH]; [reflexivity|].
  cbn [readN repeat]. rewrite ReadPacket_exhausted, IH. reflexivity.
Qed.

(** Frames whose length field is below [0xFFFF] are read back one by one. *)
Lemma reads_stream (fs : list frame) :
  Forall wf_frame fs ->
  Forall (fun f => rawDataLen (fst f) < 65535) fs ->
  reads (bytesDecoder (stream fs)) (map packetOf fs) (bytesDecoder []).
Proof.
  induction 1 as [|[header data] fs [H6 Hlen] _ IH]; intros Hsmall.
  - constructor.
  - inversion Hsmall as [|? ? Hlt Hrest]; subst. cbn [fst snd] in *.
    cbn [map]. apply reads_cons with (d1 := bytesDecoder (stream fs)).
    + unfold stream. cbn [map concat fst snd]. rewrite <- app_assoc.
      apply ReadPacket_frame; [exact H6|].
      rewrite DataLen_no_wrap by exact Hlt. exact Hlen.
    + apply IH, Hrest.
Qed.

(** On a stream of [N] frames with length fields below [0xFFFF], [N + k]
    calls of [ReadPacket] give the [N] packets in order and then [EOF],
    [k] times. *)
Lemma readN_stream (fs : list frame) (k : nat) :
  Forall wf_frame fs ->
  Forall (fun f => rawDataLen (fst f) < 65535) fs ->
  readN (length fs + k) (bytesDecoder (stream fs))
  = (map inl (map packetOf fs) ++ repeat (inr io.EOF) k, bytesDecoder []).
Proof.
  intros Hwf Hsmall. rewrite readN_app.
  pose proof (reads_readN _ _ _ (reads_stream fs Hwf Hsmall)) as Hn.
  rewrite length_map in Hn. rewrite Hn, readN_exhausted. reflexivity.
Qed.

(** ** The frame with the largest length field *)

Lemma length_maxPayload : Z.of_nat (length maxPayload) = 65536.
Proof.
  unfold maxPayload. rewrite repeat_length, Z2Nat.id by lia. reflexivity.
Qed.

Lemma wf_maxFrame : wf_frame maxFrame.
Proof.
  split; [reflexivity|]. cbn [snd fst maxFrame].
  rewrite length_maxPayload. reflexivity.
Qed.

Lemma stream_maxFrame : stream [maxFrame] = maxHeader ++ maxPayload.
Proof.
  unfold stream. cbn [map concat fst snd maxFrame]. apply app_nil_r.
Qed.

(** Behind a header with length field [0xFFFF] the decoder reads no payload
    at all, whatever follows. *)
Lemma ReadPacket_maxHeader (rest : list byte) :
  ReadPacket (bytesDecoder (maxHeader ++ rest))
  = (inl (zeroPacket 0 []), bytesDecoder rest).
Proof.
  apply (ReadPacket_frame maxHeader [] rest io.EOF); reflexivity.
Qed.

Lemma maxPayload_split :
  maxPayload = repeat x00 6 ++ [x00] ++ repeat x00 (Z.to_nat 65529).
Proof.
  unfold maxPayload.
  change [x00] with (repeat x00 1). rewrite <- !repeat_app.
  apply (f_equal (repeat x00)). lia.
Qed.

(** ** The claims *)

(** C1 (defect of the code).  The claim asks for the wire value plus one in
    a wide integer, so that [0xFFFF] gives [65536].  [ReadPacket] adds in
    [uint16]: on the frame whose length field is [0xFFFF] the wire value is
    [65535] and the decoded [DataLen] is [0], outside [1, 65536]. *)
Theorem C1_DataLen_wraps_at_0xFFFF :
  rawDataLen (fst maxFrame) = 65535 /\
  exists (pkt : Packet) (d' : Decoder),
    ReadPacket (bytesDecoder (stream [maxFrame])) = (inl pkt, d') /\
    DataLen pkt = 0.
Proof.
  split; [reflexivity|].
  exists (zeroPacket 0 []), (bytesDecoder maxPayload).
  rewrite stream_maxFrame, ReadPacket_maxHeader. split; reflexivity.
Qed.

(** C2 (defect of the code).  The claim says that a returned packet holds
    wire value plus one payload bytes and is never empty.  On the well-formed
    frame with length field [0xFFFF] and [65536] payload bytes, [ReadPacket]
    returns a packet whose payload is empty and leaves all [65536] bytes in
    the reader: the [else] branch of [if pkt.DataLen > 0] is taken. *)
Theorem C2_empty_payload_at_0xFFFF :
  wf_frame maxFrame /\
  Z.of_nat (length (snd maxFrame)) = 65536 /\
  exists pkt : Packet,
    ReadPacket (bytesDecoder (stream [maxFrame]))
    = (inl pkt, bytesDecoder (snd maxFrame)) /\
    Data pkt = [].
Proof.
  split; [exact wf_maxFrame|]. split; [exact length_maxPayload|].
  exists (zeroPacket 0 []).
  rewrite stream_maxFrame, ReadPacket_maxHeader. split; reflexivity.
Qed.

(** C3 (defect of the code).  The claim says that a payload cut short after
    a full header is an error other than the clean end of stream.  When the
    source ends right behind the header, [io.ReadFull] has read no payload
    byte and returns [io.EOF]; [ReadPacket] passes it on, and
    [ReadAllPackets] takes it for the end of the stream: no packet, no
    error, although the header announced three payload bytes. *)
Theorem C3_missing_payload_is_EOF :
  DataLen (parseHeader (firstn 6 fixture)) = 3 /\
  ReadPacket (bytesDecoder (firstn 6 fixture))
  = (inr io.EOF, bytesDecoder []) /\
  ReadAllPackets (bytesDecoder (firstn 6 fixture))
  = ([], None, bytesDecoder []).
Proof.
  repeat split; vm_compute; reflexivity.
Qed.

(** C4.  For every packet that [ReadPacket] returns, the header fields are
    the mask-and-shift values of the first four bytes of the input, among
    them [apid = ((byte0 & 0b0000_0111) << 8) | byte1] and
    [sequenceCount = ((byte2 & 0b0011_1111) << 8) | byte3], and they lie in
    their ranges: version in [0,7], type in {0,1}, apid in [0,2047],
    sequenceFlags in [0,3], sequenceCount in [0,16383]. *)
Theorem C4_header_fields_decoded (d d' : Decoder) (pkt : Packet) :
  ReadPacket d = (inl pkt, d') ->
  let byte_ := hdr (io.pending (r d)) in
  (Version pkt = Z.land (Z.shiftr (byte_ 0%nat) 5) 7 /\
   Type_ pkt = Z.land (Z.shiftr (byte_ 0%nat) 4) 1 /\
   SecondaryHdr pkt = negb (Z.land (Z.shiftr (byte_ 0%nat) 3) 1 =? 0) /\
   APID pkt = Z.lor (Z.shiftl (Z.land (byte_ 0%nat) 7) 8) (byte_ 1%nat) /\
   SequenceFlags pkt = Z.land (Z.shiftr (byte_ 2%nat) 6) 3 /\
   SequenceCount pkt
   = Z.lor (Z.shiftl (Z.land (byte_ 2%nat) 63) 8) (byte_ 3%nat)) /\
  (0 <= Version pkt <= 7 /\
   (Type_ pkt = 0 \/ Type_ pkt = 1) /\
   0 <= APID pkt <= 2047 /\
   0 <= SequenceFlags pkt <= 3 /\
   0 <= SequenceCount pkt <= 16383).
Proof.
  intros Hread byte_. subst byte_.
  destruct (ReadPacket_inl_inv _ _ _ Hread) as (header & data & Hp & H6 & _ & -> & _).
  rewrite Hp, !hdr_app by lia.
  change (?f (setData ?p ?x)) with (f p).
  destruct (Version_parseHeader header) as [-> ?].
  destruct (Type_parseHeader header) as [Ht ?].
  destruct (APID_parseHeader header) as [-> ?].
  destruct (SequenceFlags_parseHeader header) as [-> ?].
  destruct (SequenceCount_parseHeader header) as [-> ?].
  rewrite SecondaryHdr_parseHeader.
  repeat split; try reflexivity; try lia; exact Ht.
Qed.

(** The reference packet decodes to itself with every field in range. *)
Lemma C4_header_fields_decoded_witness :
  ReadPacket (bytesDecoder fixture) = (inl fixturePacket, bytesDecoder []) /\
  APID fixturePacket = 1 /\ SequenceCount fixturePacket = 16383.
Proof.
  split; [reflexivity|].
  pose proof (C4_header_fields_decoded (bytesDecoder fixture) (bytesDecoder [])
                fixturePacket eq_refl) as H.
  cbv zeta in H. destruct H as [(_ & _ & _ & Ha & _ & Hs) _].
  split; [rewrite Ha | rewrite Hs]; reflexivity.
Defined.

(** C5.  On the bytes [08 01 3F FF 00 02 DE AD BE], [ReadPacket] returns the
    packet with version 0, type 0, secondary header present, apid 1,
    sequence flags 0, sequence count [0x3FFF], data length 3 and data
    [DE AD BE]; on these bytes twice in a row, [ReadAllPackets] returns
    exactly two such packets and no error. *)
Theorem C5_canonical_fixture :
  ReadPacket (bytesDecoder fixture)
  = (inl {| Version := 0; Type_ := 0; SecondaryHdr := true; APID := 1;
            SequenceFlags := 0; SequenceCount := 0x3FFF; DataLen := 3;
            Data := [xde; xad; xbe] |},
     bytesDecoder []) /\
  ReadAllPackets (bytesDecoder (fixture ++ fixture))
  = ([fixturePacket; fixturePacket], None, bytesDecoder []).
Proof.
  split; vm_compute; reflexivity.
Qed.

(** C6.  With no byte left at the start of a header read, [ReadPacket]
    returns the clean end of stream [io.EOF]: no packet, and no error other
    than the one [ReadAllPackets] takes for the end. *)
Theorem C6_empty_input_is_EOF :
  ReadPacket (bytesDecoder []) = (inr io.EOF, bytesDecoder []) /\
  errors.Is io.EOF io.EOF = true.
Proof.
  split; reflexivity.
Qed.

(** C7.  On an input of exactly five bytes, [ReadPacket] returns
    [io.ErrUnexpectedEOF], the truncated-header error, which is not the
    clean end of stream. *)
Theorem C7_five_bytes_truncated_header (bs : list byte) :
  length bs = 5%nat ->
  ReadPacket (bytesDecoder bs)
  = (inr io.ErrUnexpectedEOF, bytesDecoder []) /\
  io.ErrUnexpectedEOF <> io.EOF /\
  errors.Is io.ErrUnexpectedEOF io.EOF = false.
Proof.
  intros H5.
  destruct bs as [|b0 [|b1 [|b2 [|b3 [|b4 [|b5 bs]]]]]]; try discriminate H5.
  repeat split. discriminate.
Qed.

Lemma C7_five_bytes_truncated_header_witness :
  ReadPacket (bytesDecoder (firstn 5 fixture))
  = (inr io.ErrUnexpectedEOF, bytesDecoder []) /\
  io.ErrUnexpectedEOF <> io.EOF /\
  errors.Is io.ErrUnexpectedEOF io.EOF = false.
Proof.
  apply (C7_five_bytes_truncated_header (firstn 5 fixture)). reflexivity.
Defined.

(** When the successive calls of [ReadPacket] return the packets [ps] and
    the next call returns an error that [errors.Is] does not take for
    [io.EOF], [ReadAllPackets] returns [ps], in that order, together with
    this error, and stops there: the decoder is left as that failing call
    left it. *)
Lemma ReadAllPackets_first_error
      (d d1 d2 : Decoder) (ps : list Packet) (err : io.error) :
  reads d ps d1 ->
  ReadPacket d1 = (inr err, d2) ->
  errors.Is err io.EOF = false ->
  ReadAllPackets d = (ps, Some err, d2).
Proof.
  intros Hreads Herr Hnot. unfold ReadAllPackets.
  rewrite (ReadAllPackets_loop_reads _ _ _ Hreads).
  rewrite (ReadAllPackets_loop_error _ _ _ _ Herr), Hnot. reflexivity.
Qed.

(** An error that wraps [io.EOF] is not [io.EOF] itself, and [ReadPacket]
    returns it as an error; [ReadAllPackets] tests it with [errors.Is] and
    ends without an error. *)
Lemma ReadAllPackets_wrapped_EOF :
  faults.wrappedEOF <> io.EOF /\
  ReadPacket (NewDecoder (io.mkReader [x08] faults.wrappedEOF))
  = (inr faults.wrappedEOF, NewDecoder (io.mkReader [] faults.wrappedEOF)) /\
  ReadAllPackets (NewDecoder (io.mkReader (fixture ++ [x08]) faults.wrappedEOF))
  = ([fixturePacket], None, NewDecoder (io.mkReader [] faults.wrappedEOF)).
Proof.
  split; [discriminate|]. split; vm_compute; reflexivity.
Qed.

(** C8 (defect of the code).  The claim says that every error of
    [ReadPacket] other than the clean end of stream comes back from
    [ReadAllPackets] with the packets decoded before it.  On one whole
    packet followed by a bare header, the first call returns the packet; the
    second has read a header that announces three payload bytes and finds
    none, which is a truncated payload and not the end of a stream between
    packets, yet it reports [io.EOF]; [ReadAllPackets] returns the packet
    and no error. *)
Theorem C8_truncated_payload_returns_no_error :
  reads (bytesDecoder (fixture ++ firstn 6 fixture)) [fixturePacket]
        (bytesDecoder (firstn 6 fixture)) /\
  DataLen (parseHeader (firstn 6 fixture)) = 3 /\
  ReadPacket (bytesDecoder (firstn 6 fixture))
  = (inr io.EOF, bytesDecoder []) /\
  ReadAllPackets (bytesDecoder (fixture ++ firstn 6 fixture))
  = ([fixturePacket], None, bytesDecoder []).
Proof.
  split.
  - apply reads_cons with (d1 := bytesDecoder (firstn 6 fixture));
      [reflexivity|apply reads_nil].
  - repeat split; vm_compute; reflexivity.
Qed.

(** C9 (defect of the code).  The claim says that on [N] well-formed packets
    [N + k] calls give the [N] packets in order and then the end of stream.
    For the one well-formed frame with length field [0xFFFF] and its [65536]
    payload bytes, the first call returns a packet without payload, and the
    second call, instead of the end of stream, returns a packet made from
    the first seven payload bytes.  (Below [0xFFFF] the claim holds,
    [readN_stream].) *)
Theorem C9_max_length_frame_misframed :
  wf_frame maxFrame /\
  readN 2 (bytesDecoder (stream [maxFrame]))
  = ([inl (zeroPacket 0 []); inl (zeroPacket 1 [x00])],
     bytesDecoder (repeat x00 (Z.to_nat 65529))) /\
  Data (zeroPacket 0 []) <> snd maxFrame.
Proof.
  split; [exact wf_maxFrame|]. split.
  - cbn [readN]. rewrite stream_maxFrame, ReadPacket_maxHeader.
    rewrite maxPayload_split. unfold bytesDecoder.
    rewrite (ReadPacket_frame (repeat x00 6) [x00] _ io.EOF)
      by reflexivity.
    reflexivity.
  - intros Heq. pose proof length_maxPayload as Hlen.
    cbn [snd maxFrame] in Heq. rewrite <- Heq in Hlen. discriminate Hlen.
Qed.

(** C10.  For every packet that [ReadPacket] returns, the length of [Data]
    is the stored 16-bit [DataLen]; when the wire length field is [0xFFFF]
    the stored [DataLen] is 0, [Data] is empty, and the reader has advanced
    by the six header bytes only. *)
Theorem C10_Data_length_is_DataLen (d d' : Decoder) (pkt : Packet) :
  ReadPacket d = (inl pkt, d') ->
  Z.of_nat (length (Data pkt)) = DataLen pkt /\
  0 <= DataLen pkt <= 65535 /\
  (rawDataLen (io.pending (r d)) = 0xFFFF ->
   DataLen pkt = 0 /\ Data pkt = [] /\
   io.pending (r d') = skipn 6 (io.pending (r d))).
Proof.
  intros Hread.
  destruct (ReadPacket_inl_inv _ _ _ Hread)
    as (header & data & Hp & H6 & Hlen & -> & _).
  cbn [Data DataLen setData].
  split; [exact Hlen|]. split; [apply DataLen_range|].
  rewrite Hp, rawDataLen_app by exact H6. intros Hmax.
  pose proof (DataLen_wrap header Hmax) as H0.
  rewrite H0 in Hlen. destruct data as [|x data]; [|discriminate Hlen].
  repeat split; [exact H0|].
  cbn [app]. rewrite skipn_app, H6, Nat.sub_diag, skipn_all2 by lia.
  reflexivity.
Qed.

Lemma C10_Data_length_is_DataLen_witness :
  ReadPacket (bytesDecoder (maxHeader ++ [xde; xad]))
  = (inl (zeroPacket 0 []), bytesDecoder [xde; xad]) /\
  Z.of_nat (length (Data (zeroPacket 0 []))) = DataLen (zeroPacket 0 []) /\
  0 <= DataLen (zeroPacket 0 []) <= 65535 /\
  (rawDataLen (maxHeader ++ [xde; xad]) = 0xFFFF ->
   DataLen (zeroPacket 0 []) = 0 /\ Data (zeroPacket 0 []) = [] /\
   [xde; xad] = skipn 6 (maxHeader ++ [xde; xad])).
Proof.
  split; [reflexivity|].
  apply (C10_Data_length_is_DataLen
           (bytesDecoder (maxHeader ++ [xde; xad]))
           (bytesDecoder [xde; xad]) (zeroPacket 0 [])).
  reflexivity.
Defined.

(** ** Further properties of the decoder *)

Lemma error_eqb_EOF (e : io.error) :
  io.error_eqb e io.EOF = true -> e = io.EOF.
Proof. destruct e; cbn; congruence. Qed.

Lemma byteZ_inj (x y : byte) : byteZ x = byteZ y -> x = y.
Proof.
  unfold byteZ. intros H. apply N2Z.inj in H.
  pose proof (Byte.of_to_N x) as Hx. pose proof (Byte.of_to_N y) as Hy.
  rewrite H in Hx. congruence.
Qed.

(** A failed [ReadPacket] has drained the reader, and its error is the
    reader's own, or [ErrUnexpectedEOF] where [io.ReadFull] puts it for
    [EOF]. *)
Lemma ReadPacket_inr_inv (d d' : Decoder) (err : io.error) :
  ReadPacket d = (inr err, d') ->
  d' = mkDecoder (io.mkReader [] (io.final (r d))) /\
  (err = io.final (r d) \/
   (io.final (r d) = io.EOF /\ err = io.ErrUnexpectedEOF)).
Proof.
  unfold ReadPacket, io.ReadFull.
  destruct (6 <=? length (io.pending (r d)))%nat.
  - cbv beta iota zeta. destruct (0 <? _); [|discriminate].
    cbn [io.pending io.final].
    destruct (_ <=? length (skipn 6 _))%nat; [discriminate|].
    destruct (skipn 6 _).
    + intros [= <- <-]. auto.
    + destruct (io.error_eqb (io.final (r d)) io.EOF) eqn:E;
        intros [= <- <-]; [apply error_eqb_EOF in E|]; auto.
  - destruct (io.pending (r d)).
    + destruct (io.error_eqb (io.final (r d)) io.EOF) eqn:E;
        intros [= <- <-]; [apply error_eqb_EOF in E|]; auto.
    + destruct (io.error_eqb (io.final (r d)) io.EOF) eqn:E.
      * apply error_eqb_EOF in E. cbn [io.error_eqb].
        intros [= <- <-]. auto.
      * rewrite E. intros [= <- <-]. auto.
Qed.

(** On a drained reader [ReadPacket] returns the reader's error and changes
    nothing. *)
Lemma ReadPacket_drained (d : Decoder) :
  io.pending (r d) = [] -> ReadPacket d = (inr (io.final (r d)), d).
Proof.
  destruct d as [[p f]]. cbn [r io.pending io.final]. intros ->.
  unfold ReadPacket, io.ReadFull. cbn [r io.pending io.final length Nat.leb].
  destruct (io.error_eqb f io.EOF) eqn:E; [|reflexivity].
  apply error_eqb_EOF in E. subst f. reflexivity.
Qed.

Lemma readN_drained (d : Decoder) (k : nat) :
  io.pending (r d) = [] ->
  readN k d = (repeat (inr (io.final (r d))) k, d).
Proof.
  intros Hnil. induction k as [|k IH]; [reflexivity|].
  cbn [readN repeat]. rewrite (ReadPacket_drained d Hnil), IH. reflexivity.
Qed.

Lemma ReadPacket_remaining (d d' : Decoder) (pkt : Packet) :
  ReadPacket d = (inl pkt, d') ->
  remaining d = (6 + length (Data pkt) + remaining d')%nat.
Proof.
  intros Hread.
  destruct (ReadPacket_inl_inv _ _ _ Hread)
    as (header & data & Hp & H6 & _ & -> & _).
  unfold remaining. rewrite Hp, !length_app, H6. reflexivity.
Qed.

Lemma ReadPacket_packet_ok (d d' : Decoder) (pkt : Packet) :
  ReadPacket d = (inl pkt, d') -> packet_ok pkt.
Proof.
  intros Hread.
  destruct (ReadPacket_inl_inv _ _ _ Hread)
    as (header & data & _ & _ & Hlen & -> & _).
  unfold packet_ok.
  cbn [Data Version Type_ APID SequenceFlags SequenceCount DataLen setData].
  destruct (Version_parseHeader header) as [_ ?].
  destruct (Type_parseHeader header) as [_ ?].
  destruct (APID_parseHeader header) as [_ ?].
  destruct (SequenceFlags_parseHeader header) as [_ ?].
  destruct (SequenceCount_parseHeader header) as [_ ?].
  pose proof (DataLen_range header).
  repeat split; try assumption; lia.
Qed.

(** *** Along successive reads *)

Lemma reads_final (d d' : Decoder) (ps : list Packet) :
  reads d ps d' -> io.final (r d') = io.final (r d).
Proof.
  induction 1 as [d|d d1 d2 pkt ps Hread _ IH]; [reflexivity|].
  destruct (ReadPacket_inl_inv _ _ _ Hread) as (_ & _ & _ & _ & _ & _ & Hf).
  congruence.
Qed.

Lemma reads_remaining (d d' : Decoder) (ps : list Packet) :
  reads d ps d' -> remaining d = (consumed ps + remaining d')%nat.
Proof.
  induction 1 as [d|d d1 d2 pkt ps Hread _ IH]; [reflexivity|].
  cbn [consumed fold_right]. fold (consumed ps).
  rewrite (ReadPacket_remaining _ _ _ Hread), IH. lia.
Qed.

Lemma reads_packet_ok (d d' : Decoder) (ps : list Packet) :
  reads d ps d' -> Forall packet_ok ps.
Proof.
  induction 1 as [d|d d1 d2 pkt ps Hread _ IH]; constructor.
  - exact (ReadPacket_packet_ok _ _ _ Hread).
  - exact IH.
Qed.

Lemma consumed_length (ps : list Packet) :
  (6 * length ps <= consumed ps)%nat.
Proof.
  induction ps as [|p ps IH]; cbn [consumed fold_right length]; [lia|].
  fold (consumed ps). lia.
Qed.

(** What the loop does from any decoder: some packets are read one after
    the other, the next read fails, and the loop returns the packets behind
    those it was given, with the error unless it is the end of stream. *)
Lemma ReadAllPackets_loop_char (d : Decoder) :
  exists (ps : list Packet) (d1 d' : Decoder) (err : io.error),
    reads d ps d1 /\
    ReadPacket d1 = (inr err, d') /\
    forall packets : list Packet,
      ReadAllPackets_loop d packets = (packets ++ ps, surfaced err, d').
Proof.
  remember (remaining d) as n eqn:Hn. revert d Hn.
  induction n as [n IH] using lt_wf_ind. intros d Hn.
  destruct (ReadPacket d) as [[pkt|err] d1] eqn:Hread.
  - pose proof (ReadPacket_remaining _ _ _ Hread) as Hrem.
    destruct (IH (remaining d1) ltac:(lia) d1 eq_refl)
      as (ps & d2 & d' & err & Hreads & Herr & Hloop).
    exists (pkt :: ps), d2, d', err. repeat split.
    + exact (reads_cons _ _ _ _ _ Hread Hreads).
    + exact Herr.
    + intros packets.
      rewrite (ReadAllPackets_loop_packet _ _ _ _ Hread), Hloop, <- app_assoc.
      reflexivity.
  - exists [], d, d1, err. repeat split.
    + constructor.
    + exact Hread.
    + intros packets.
      rewrite (ReadAllPackets_loop_error _ _ _ _ Hread), app_nil_r.
      unfold surfaced. destruct (errors.Is err io.EOF); reflexivity.
Qed.

(** *** One call of ReadPacket *)

(** X1.  A successful [ReadPacket] takes exactly [6 + DataLen] bytes: the
    payload is the [DataLen] bytes behind the six header bytes, the reader
    is left right behind them, and the bytes further on are untouched. *)
Theorem X1_ReadPacket_takes_exactly_its_bytes (d d' : Decoder) (pkt : Packet) :
  ReadPacket d = (inl pkt, d') ->
  Data pkt = firstn (Z.to_nat (DataLen pkt)) (skipn 6 (io.pending (r d))) /\
  io.pending (r d')
  = skipn (6 + Z.to_nat (DataLen pkt)) (io.pending (r d)) /\
  remaining d = (6 + Z.to_nat (DataLen pkt) + remaining d')%nat /\
  io.final (r d') = io.final (r d).
Proof.
  intros Hread.
  destruct (ReadPacket_inl_inv _ _ _ Hread)
    as (header & data & Hp & H6 & Hlen & -> & Hf).
  cbn [Data DataLen setData]. rewrite <- Hlen, Nat2Z.id.
  unfold remaining. rewrite Hp, <- H6. repeat split.
  - rewrite skipn_app, Nat.sub_diag, skipn_all. cbn [app skipn].
    rewrite firstn_app, Nat.sub_diag, firstn_all. cbn [firstn].
    symmetry. apply app_nil_r.
  - rewrite <- length_app, app_assoc, skipn_app, Nat.sub_diag, skipn_all.
    reflexivity.
  - rewrite !length_app. lia.
  - exact Hf.
Qed.

Lemma X1_ReadPacket_takes_exactly_its_bytes_witness :
  Data fixturePacket
  = firstn (Z.to_nat (DataLen fixturePacket)) (skipn 6 (fixture ++ [x08])) /\
  [x08] = skipn (6 + Z.to_nat (DataLen fixturePacket)) (fixture ++ [x08]) /\
  remaining (bytesDecoder (fixture ++ [x08]))
  = (6 + Z.to_nat (DataLen fixturePacket) + remaining (bytesDecoder [x08]))%nat /\
  io.EOF = io.EOF.
Proof.
  apply (X1_ReadPacket_takes_exactly_its_bytes
           (bytesDecoder (fixture ++ [x08])) (bytesDecoder [x08])
           fixturePacket).
  reflexivity.
Defined.

(** X2.  Over a [bytes.Reader], a failed [ReadPacket] has used up every
    byte that was left, and its error is [io.EOF] or [io.ErrUnexpectedEOF]:
    [io.EOF] exactly when the input was empty or was nothing but a 6-byte
    header, [io.ErrUnexpectedEOF] for every other truncation. *)
Theorem X2_failed_read_over_bytes
        (bs : list byte) (err : io.error) (d' : Decoder) :
  ReadPacket (bytesDecoder bs) = (inr err, d') ->
  d' = bytesDecoder [] /\
  (err = io.EOF \/ err = io.ErrUnexpectedEOF) /\
  (err = io.EOF <-> length bs = 0%nat \/ length bs = 6%nat).
Proof.
  intros Hread.
  destruct (ReadPacket_inr_inv _ _ _ Hread) as [-> _].
  split; [reflexivity|].
  assert (Hcases : (err = io.EOF /\ (length bs = 0 \/ length bs = 6)%nat) \/
                   (err = io.ErrUnexpectedEOF /\
                    length bs <> 0%nat /\ length bs <> 6%nat)).
  { revert Hread. unfold ReadPacket, io.ReadFull, bytesDecoder, NewDecoder.
    cbn [r io.pending io.final].
    destruct bs as [|b0 [|b1 [|b2 [|b3 [|b4 [|b5 rest]]]]]];
      cbn [length Nat.leb io.error_eqb];
      try (intros H; inversion H; subst;
           (left; split; [reflexivity|lia])
           || (right; split; [reflexivity|lia])).
    cbv beta iota zeta. cbn [io.pending io.final skipn].
    destruct (0 <? _); [|discriminate].
    destruct (_ <=? length rest)%nat; [discriminate|].
    destruct rest; cbn [io.error_eqb length]; intros H; inversion H; subst.
    - left. split; [reflexivity|lia].
    - right. split; [reflexivity|lia]. }
  destruct Hcases as [[-> Hlen]|[-> [H0 H6]]].
  - split; [auto|]. split; auto.
  - split; [auto|]. split; [discriminate|]. intros [H|H]; contradiction.
Qed.

Lemma X2_failed_read_over_bytes_witness :
  bytesDecoder [] = bytesDecoder [] /\
  (io.ErrUnexpectedEOF = io.EOF \/ io.ErrUnexpectedEOF = io.ErrUnexpectedEOF) /\
  (io.ErrUnexpectedEOF = io.EOF <->
   length (firstn 8 fixture) = 0%nat \/ length (firstn 8 fixture) = 6%nat).
Proof.
  apply (X2_failed_read_over_bytes
           (firstn 8 fixture) io.ErrUnexpectedEOF (bytesDecoder [])).
  reflexivity.
Defined.

(** X3.  Over a [bytes.Reader], once [ReadPacket] has failed, every later
    call returns [io.EOF] and no packet: after a truncated packet reported
    as [io.ErrUnexpectedEOF], the next calls report the plain end of
    stream. *)
Theorem X3_after_an_error_no_more_packets
        (bs : list byte) (d' : Decoder) (err : io.error) (k : nat) :
  ReadPacket (bytesDecoder bs) = (inr err, d') ->
  readN k d' = (repeat (inr io.EOF) k, d').
Proof.
  intros Hread.
  destruct (ReadPacket_inr_inv _ _ _ Hread) as [-> _].
  apply (readN_drained (bytesDecoder [])). reflexivity.
Qed.

Lemma X3_after_an_error_no_more_packets_witness :
  readN 3 (bytesDecoder [])
  = ([inr io.EOF; inr io.EOF; inr io.EOF], bytesDecoder []).
Proof.
  apply (X3_after_an_error_no_more_packets
           (firstn 8 fixture) (bytesDecoder []) io.ErrUnexpectedEOF 3).
  reflexivity.
Defined.

(** X4.  With at least one byte but fewer than six, [ReadPacket] fails and
    drains the reader: with [io.ErrUnexpectedEOF] when the source simply
    ends, with the source's error otherwise. *)
Theorem X4_header_fragment (d : Decoder) :
  (0 < remaining d < 6)%nat ->
  ReadPacket d
  = (inr (if io.error_eqb (io.final (r d)) io.EOF
          then io.ErrUnexpectedEOF else io.final (r d)),
     mkDecoder (io.mkReader [] (io.final (r d)))).
Proof.
  destruct d as [[bs fin]]. unfold remaining. cbn [r io.pending io.final].
  intros Hlen. unfold ReadPacket, io.ReadFull.
  cbn [r io.pending io.final].
  destruct bs as [|b0 [|b1 [|b2 [|b3 [|b4 [|b5 bs]]]]]];
    cbn [length] in Hlen; try lia; cbn [length Nat.leb];
    (destruct (io.error_eqb fin io.EOF) eqn:E; [reflexivity|]);
    rewrite E; reflexivity.
Qed.

Lemma X4_header_fragment_witness :
  ReadPacket (bytesDecoder [x08])
  = (inr io.ErrUnexpectedEOF, bytesDecoder []).
Proof.
  apply (X4_header_fragment (bytesDecoder [x08])).
  cbn. lia.
Defined.

(** X5.  A returned packet has an empty payload exactly when the length
    field on the wire is [0xFFFF]. *)
Theorem X5_empty_payload_iff_0xFFFF (d d' : Decoder) (pkt : Packet) :
  ReadPacket d = (inl pkt, d') ->
  (Data pkt = [] <-> rawDataLen (io.pending (r d)) = 65535).
Proof.
  intros Hread.
  destruct (ReadPacket_inl_inv _ _ _ Hread)
    as (header & data & Hp & H6 & Hlen & -> & _).
  rewrite Hp, rawDataLen_app by exact H6. cbn [Data setData].
  pose proof (rawDataLen_range header) as Hraw.
  split.
  - intros ->. cbn [length] in Hlen.
    destruct (Z.eq_dec (rawDataLen header) 65535) as [|Hne]; [assumption|].
    rewrite DataLen_no_wrap in Hlen by lia. lia.
  - intros Hmax. rewrite (DataLen_wrap header Hmax) in Hlen.
    destruct data; [reflexivity|discriminate Hlen].
Qed.

Lemma X5_empty_payload_iff_0xFFFF_witness :
  Data (zeroPacket 0 []) = [] <-> rawDataLen (maxHeader ++ [xde]) = 65535.
Proof.
  apply (X5_empty_payload_iff_0xFFFF
           (bytesDecoder (maxHeader ++ [xde])) (bytesDecoder [xde])
           (zeroPacket 0 [])).
  reflexivity.
Defined.

(** X6.  Bytes that arrive behind a packet do not change it: if
    [ReadPacket] returns a packet from a stream, it returns the same packet
    from any longer stream with the same beginning, and the added bytes stay
    in the reader. *)
Theorem X6_packet_unchanged_by_later_bytes
        (bs extra : list byte) (fin : io.error) (pkt : Packet) (d' : Decoder) :
  ReadPacket (NewDecoder (io.mkReader bs fin)) = (inl pkt, d') ->
  ReadPacket (NewDecoder (io.mkReader (bs ++ extra) fin))
  = (inl pkt, NewDecoder (io.mkReader (io.pending (r d') ++ extra) fin)).
Proof.
  intros Hread.
  destruct (ReadPacket_inl_inv _ _ _ Hread)
    as (header & data & Hp & H6 & Hlen & -> & _).
  cbn [NewDecoder r io.pending] in Hp. rewrite Hp, <- !app_assoc.
  apply ReadPacket_frame; assumption.
Qed.

Lemma X6_packet_unchanged_by_later_bytes_witness :
  ReadPacket (NewDecoder (io.mkReader (fixture ++ [xaa; xbb]) io.EOF))
  = (inl fixturePacket, NewDecoder (io.mkReader ([] ++ [xaa; xbb]) io.EOF)).
Proof.
  apply (X6_packet_unchanged_by_later_bytes
           fixture [xaa; xbb] io.EOF fixturePacket (bytesDecoder [])).
  reflexivity.
Defined.

(** *** The header decode loses nothing *)

(** The first header byte is made of the version, the type, the secondary
    header flag and the high bits of the APID; the third of the sequence
    flags and the high bits of the sequence count. *)
Lemma byte_recomposed (x : byte) :
  byteZ x
  = 32 * Z.shiftr (Z.land (byteZ x) 0xE0) 5
    + 16 * Z.shiftr (Z.land (byteZ x) 0x10) 4
    + (if negb (Z.land (byteZ x) 0x08 =? 0) then 8 else 0)
    + Z.land (byteZ x) 0x07 /\
  byteZ x
  = 64 * Z.shiftr (Z.land (byteZ x) 0xC0) 6 + Z.land (byteZ x) 0x3F.
Proof.
  destruct x; split; reflexivity.
Qed.

Lemma APID_sum (header : list byte) :
  APID (parseHeader header)
  = Z.land (hdr header 0) 0x07 * 256 + hdr header 1.
Proof.
  cbn [APID parseHeader]. rewrite Z.lor_comm.
  destruct (byte_fields (nth 0 header x00)) as (_ & _ & _ & _ & _ & _ & _ & H7 & _).
  fold (hdr header 0) in H7.
  apply (BigEndian_Uint16_spec (Z.land (hdr header 0) 0x07) (hdr header 1));
    [lia|apply hdr_range].
Qed.

Lemma SequenceCount_sum (header : list byte) :
  SequenceCount (parseHeader header)
  = Z.land (hdr header 2) 0x3F * 256 + hdr header 3.
Proof.
  cbn [SequenceCount parseHeader].
  destruct (byte_fields (nth 2 header x00)) as (_ & _ & _ & _ & _ & _ & _ & _ & H63).
  fold (hdr header 2) in H63.
  apply (BigEndian_Uint16_spec (Z.land (hdr header 2) 0x3F) (hdr header 3));
    [lia|apply hdr_range].
Qed.

Lemma rawDataLen_sum (header : list byte) :
  rawDataLen header = hdr header 4 * 256 + hdr header 5.
Proof.
  apply (BigEndian_Uint16_spec (hdr header 4) (hdr header 5));
    apply hdr_range.
Qed.

(** Headers that decode to the same fields agree byte by byte. *)
Lemma parseHeader_bytes (h1 h2 : list byte) :
  parseHeader h1 = parseHeader h2 ->
  forall i : nat, (i < 6)%nat -> hdr h1 i = hdr h2 i.
Proof.
  intros Heq.
  pose proof (f_equal Version Heq) as HV.
  pose proof (f_equal Type_ Heq) as HT.
  pose proof (f_equal SecondaryHdr Heq) as HS.
  pose proof (f_equal APID Heq) as HA.
  pose proof (f_equal SequenceFlags Heq) as HF.
  pose proof (f_equal SequenceCount Heq) as HC.
  pose proof (f_equal DataLen Heq) as HL.
  rewrite !APID_sum in HA. rewrite !SequenceCount_sum in HC.
  rewrite !DataLen_parseHeader, !rawDataLen_sum in HL.
  cbn [Version Type_ SecondaryHdr SequenceFlags parseHeader] in HV, HT, HS, HF.
  destruct (byte_fields (nth 0 h1 x00)) as (_ & _ & _ & _ & _ & _ & _ & Ha1 & _).
  destruct (byte_fields (nth 0 h2 x00)) as (_ & _ & _ & _ & _ & _ & _ & Ha2 & _).
  destruct (byte_fields (nth 2 h1 x00)) as (_ & _ & _ & _ & _ & _ & _ & _ & Hc1).
  destruct (byte_fields (nth 2 h2 x00)) as (_ & _ & _ & _ & _ & _ & _ & _ & Hc2).
  fold (hdr h1 0) in Ha1. fold (hdr h2 0) in Ha2.
  fold (hdr h1 2) in Hc1. fold (hdr h2 2) in Hc2.
  pose proof (hdr_range h1 1). pose proof (hdr_range h2 1).
  pose proof (hdr_range h1 3). pose proof (hdr_range h2 3).
  pose proof (hdr_range h1 4). pose proof (hdr_range h2 4).
  pose proof (hdr_range h1 5). pose proof (hdr_range h2 5).
  assert (Hlow0 : Z.land (hdr h1 0) 7 = Z.land (hdr h2 0) 7) by lia.
  assert (Hlow2 : Z.land (hdr h1 2) 63 = Z.land (hdr h2 2) 63) by lia.
  assert (Hraw : hdr h1 4 * 256 + hdr h1 5 = hdr h2 4 * 256 + hdr h2 5).
  { revert HL.
    rewrite <- (Z.mod_small (hdr h1 4 * 256 + hdr h1 5) 65536) at 2 by lia.
    rewrite <- (Z.mod_small (hdr h2 4 * 256 + hdr h2 5) 65536) at 2 by lia.
    generalize (hdr h1 4 * 256 + hdr h1 5), (hdr h2 4 * 256 + hdr h2 5).
    intros a b Hab. Z.div_mod_to_equations. lia. }
  intros i Hi.
  destruct i as [|[|[|[|[|[|i]]]]]]; try lia.
  - unfold hdr in *.
    destruct (byte_recomposed (nth 0 h1 x00)) as [-> _].
    destruct (byte_recomposed (nth 0 h2 x00)) as [E2 _]. rewrite E2 at 1.
    rewrite HV, HT, HS, Hlow0. reflexivity.
  - unfold hdr in *.
    destruct (byte_recomposed (nth 2 h1 x00)) as [_ ->].
    destruct (byte_recomposed (nth 2 h2 x00)) as [_ E2]. rewrite E2 at 1.
    rewrite HF, Hlow2. reflexivity.
Qed.

(** X7.  The header decode is lossless: two 6-byte headers that decode to
    the same field values are the same six bytes. *)
Theorem X7_parseHeader_injective (h1 h2 : list byte) :
  length h1 = 6%nat -> length h2 = 6%nat ->
  parseHeader h1 = parseHeader h2 -> h1 = h2.
Proof.
  intros H1 H2 Heq.
  pose proof (parseHeader_bytes h1 h2 Heq) as Hb.
  destruct h1 as [|a0 [|a1 [|a2 [|a3 [|a4 [|a5 [|? ?]]]]]]]; try discriminate H1.
  destruct h2 as [|b0 [|b1 [|b2 [|b3 [|b4 [|b5 [|? ?]]]]]]]; try discriminate H2.
  pose proof (Hb 0%nat ltac:(lia)) as E0. pose proof (Hb 1%nat ltac:(lia)) as E1.
  pose proof (Hb 2%nat ltac:(lia)) as E2. pose proof (Hb 3%nat ltac:(lia)) as E3.
  pose proof (Hb 4%nat ltac:(lia)) as E4. pose proof (Hb 5%nat ltac:(lia)) as E5.
  unfold hdr in *. cbn [nth] in *.
  apply byteZ_inj in E0, E1, E2, E3, E4, E5. congruence.
Qed.

Lemma X7_parseHeader_injective_witness :
  firstn 6 fixture = [x08; x01; x3f; xff; x00; x02].
Proof.
  apply (X7_parseHeader_injective
           (firstn 6 fixture) [x08; x01; x3f; xff; x00; x02]);
    reflexivity.
Defined.

(** *** ReadAllPackets as a whole *)

(** Frames with length fields below [0xFFFF], with anything behind them and
    whatever the reader's last error is, are read back one by one. *)
Lemma reads_stream_app (fs : list frame) (rest : list byte) (fin : io.error) :
  Forall wf_frame fs ->
  Forall (fun f => rawDataLen (fst f) < 65535) fs ->
  reads (NewDecoder (io.mkReader (stream fs ++ rest) fin))
        (map packetOf fs)
        (NewDecoder (io.mkReader rest fin)).
Proof.
  induction 1 as [|[header data] fs [H6 Hlen] _ IH]; intros Hsmall.
  - constructor.
  - inversion Hsmall as [|? ? Hlt Hrest]; subst. cbn [fst snd] in *.
    cbn [map].
    apply reads_cons
      with (d1 := NewDecoder (io.mkReader (stream fs ++ rest) fin)).
    + unfold stream. cbn [map concat fst snd]. rewrite <- !app_assoc.
      apply ReadPacket_frame; [exact H6|].
      rewrite DataLen_no_wrap by exact Hlt. exact Hlen.
    + apply IH, Hrest.
Qed.

(** Behind such frames, [ReadAllPackets] ends on the first failing read. *)
Lemma ReadAllPackets_after_stream
      (fs : list frame) (rest : list byte) (err : io.error) (d' : Decoder) :
  Forall wf_frame fs ->
  Forall (fun f => rawDataLen (fst f) < 65535) fs ->
  ReadPacket (bytesDecoder rest) = (inr err, d') ->
  ReadAllPackets (bytesDecoder (stream fs ++ rest))
  = (map packetOf fs, surfaced err, d').
Proof.
  intros Hwf Hsmall Herr. unfold ReadAllPackets, bytesDecoder.
  rewrite (ReadAllPackets_loop_reads _ _ _
             (reads_stream_app fs rest io.EOF Hwf Hsmall)).
  rewrite (ReadAllPackets_loop_error _ _ _ _ Herr). cbn [app].
  unfold surfaced. destruct (errors.Is err io.EOF); reflexivity.
Qed.

Lemma wf_fixtureFrame :
  Forall wf_frame [fixtureFrame; fixtureFrame] /\
  Forall (fun f => rawDataLen (fst f) < 65535) [fixtureFrame; fixtureFrame].
Proof.
  split; repeat constructor.
Qed.


(** X9.  Over a [bytes.Reader], [ReadAllPackets] uses up the whole input,
    whether or not it returns an error, and a second call on the same
    decoder returns no packet and no error. *)
Theorem X9_ReadAllPackets_drains_the_reader
        (bs : list byte) (d' : Decoder) (ps : list Packet)
        (e : option io.error) :
  ReadAllPackets (bytesDecoder bs) = (ps, e, d') ->
  d' = bytesDecoder [] /\
  ReadAllPackets d' = ([], None, d').
Proof.
  intros Hall.
  destruct (ReadAllPackets_loop_char (bytesDecoder bs))
    as (ps0 & d1 & d0 & err & Hreads & Herr & Hloop).
  unfold ReadAllPackets in Hall. rewrite Hloop in Hall.
  injection Hall as _ _ <-.
  destruct (ReadPacket_inr_inv _ _ _ Herr) as [-> _].
  rewrite (reads_final _ _ _ Hreads). cbn [bytesDecoder NewDecoder r io.final].
  split; [reflexivity|].
  unfold ReadAllPackets.
  rewrite (ReadAllPackets_loop_error _ _ _ _ ReadPacket_exhausted).
  reflexivity.
Qed.

Lemma X9_ReadAllPackets_drains_the_reader_witness :
  bytesDecoder [] = bytesDecoder [] /\
  ReadAllPackets (bytesDecoder []) = ([], None, bytesDecoder []).
Proof.
  apply (X9_ReadAllPackets_drains_the_reader
           (fixture ++ [x08]) (bytesDecoder [])
           [fixturePacket] (Some io.ErrUnexpectedEOF)).
  reflexivity.
Defined.

(** X10.  An error returned by [ReadAllPackets] is never one that
    [errors.Is] takes for [io.EOF]; it is the source's own error or
    [io.ErrUnexpectedEOF], and over a source that simply ends it can only be
    [io.ErrUnexpectedEOF]. *)
Theorem X10_ReadAllPackets_error_kinds
        (d d' : Decoder) (ps : list Packet) (err : io.error) :
  ReadAllPackets d = (ps, Some err, d') ->
  errors.Is err io.EOF = false /\
  (err = io.final (r d) \/ err = io.ErrUnexpectedEOF) /\
  (io.final (r d) = io.EOF -> err = io.ErrUnexpectedEOF).
Proof.
  intros Hall.
  destruct (ReadAllPackets_loop_char d)
    as (ps0 & d1 & d0 & err0 & Hreads & Herr & Hloop).
  unfold ReadAllPackets in Hall. rewrite Hloop in Hall.
  unfold surfaced in Hall.
  destruct (errors.Is err0 io.EOF) eqn:His; [discriminate Hall|].
  injection Hall as _ <- _.
  destruct (ReadPacket_inr_inv _ _ _ Herr) as [_ Hkind].
  rewrite (reads_final _ _ _ Hreads) in Hkind.
  split; [exact His|]. split.
  - destruct Hkind as [->|[_ ->]]; auto.
  - intros Hfin. destruct Hkind as [->|[_ ->]]; [|reflexivity].
    rewrite Hfin in His. discriminate His.
Qed.

Lemma X10_ReadAllPackets_error_kinds_witness :
  errors.Is io.ErrUnexpectedEOF io.EOF = false /\
  (io.ErrUnexpectedEOF = io.EOF \/ io.ErrUnexpectedEOF = io.ErrUnexpectedEOF) /\
  (io.EOF = io.EOF -> io.ErrUnexpectedEOF = io.ErrUnexpectedEOF).
Proof.
  apply (X10_ReadAllPackets_error_kinds
           (bytesDecoder (fixture ++ [x08])) (bytesDecoder [])
           [fixturePacket] io.ErrUnexpectedEOF).
  reflexivity.
Defined.

(** X11.  The packets that [ReadAllPackets] returns account for no more
    bytes than the input had: six header bytes and the payload for each; so
    an input of [n] bytes gives at most [n / 6] packets. *)
Theorem X11_ReadAllPackets_byte_accounting
        (d d' : Decoder) (ps : list Packet) (e : option io.error) :
  ReadAllPackets d = (ps, e, d') ->
  (consumed ps <= remaining d)%nat /\
  (6 * length ps <= remaining d)%nat.
Proof.
  intros Hall.
  destruct (ReadAllPackets_loop_char d)
    as (ps0 & d1 & d0 & err & Hreads & _ & Hloop).
  unfold ReadAllPackets in Hall. rewrite Hloop in Hall.
  injection Hall as <- _ _. cbn [app].
  pose proof (reads_remaining _ _ _ Hreads).
  pose proof (consumed_length ps0). lia.
Qed.

Lemma X11_ReadAllPackets_byte_accounting_witness :
  (consumed [fixturePacket] <= remaining (bytesDecoder (fixture ++ [x08])))%nat /\
  (6 * length [fixturePacket] <= remaining (bytesDecoder (fixture ++ [x08])))%nat.
Proof.
  apply (X11_ReadAllPackets_byte_accounting
           (bytesDecoder (fixture ++ [x08])) (bytesDecoder [])
           [fixturePacket] (Some io.ErrUnexpectedEOF)).
  reflexivity.
Defined.

(** X12.  Every packet that [ReadAllPackets] returns, with or without an
    error, has each header field within its bit width and as many payload
    bytes as its [DataLen]. *)
Theorem X12_ReadAllPackets_packets_ok
        (d d' : Decoder) (ps : list Packet) (e : option io.error) :
  ReadAllPackets d = (ps, e, d') -> Forall packet_ok ps.
Proof.
  intros Hall.
  destruct (ReadAllPackets_loop_char d)
    as (ps0 & d1 & d0 & err & Hreads & _ & Hloop).
  unfold ReadAllPackets in Hall. rewrite Hloop in Hall.
  injection Hall as <- _ _. cbn [app].
  exact (reads_packet_ok _ _ _ Hreads).
Qed.

Lemma X12_ReadAllPackets_packets_ok_witness :
  Forall packet_ok [fixturePacket].
Proof.
  apply (X12_ReadAllPackets_packets_ok
           (bytesDecoder (fixture ++ [x08])) (bytesDecoder [])
           [fixturePacket] (Some io.ErrUnexpectedEOF)).
  reflexivity.
Defined.

(** *** Streams of frames *)

Lemma ReadPacket_short_header (tail : list byte) :
  (0 < length tail < 6)%nat ->
  ReadPacket (bytesDecoder tail) = (inr io.ErrUnexpectedEOF, bytesDecoder []).
Proof.
  intros Hlen.
  destruct tail as [|b0 [|b1 [|b2 [|b3 [|b4 [|b5 tail]]]]]];
    cbn [length] in Hlen; try lia; reflexivity.
Qed.

(** X13.  Decoding composes along the stream: behind frames with length
    fields below [0xFFFF], [ReadAllPackets] returns their packets followed by
    whatever it returns on the rest of the stream alone, with the same
    error. *)
Theorem X13_ReadAllPackets_composes (fs : list frame) (rest : list byte) :
  Forall wf_frame fs ->
  Forall (fun f => rawDataLen (fst f) < 65535) fs ->
  ReadAllPackets (bytesDecoder (stream fs ++ rest))
  = (let '(ps, e, d') := ReadAllPackets (bytesDecoder rest) in
     (map packetOf fs ++ ps, e, d')).
Proof.
  intros Hwf Hsmall. unfold ReadAllPackets, bytesDecoder.
  rewrite (ReadAllPackets_loop_reads _ _ _
             (reads_stream_app fs rest io.EOF Hwf Hsmall)).
  destruct (ReadAllPackets_loop_char (NewDecoder (io.mkReader rest io.EOF)))
    as (ps & d1 & d' & err & _ & _ & Hloop).
  rewrite !Hloop. reflexivity.
Qed.

Lemma X13_ReadAllPackets_composes_witness :
  ReadAllPackets (bytesDecoder (stream [fixtureFrame; fixtureFrame] ++ fixture))
  = (let '(ps, e, d') := ReadAllPackets (bytesDecoder fixture) in
     (map packetOf [fixtureFrame; fixtureFrame] ++ ps, e, d')).
Proof.
  apply (X13_ReadAllPackets_composes [fixtureFrame; fixtureFrame] fixture);
    apply wf_fixtureFrame.
Defined.

(** X14.  A stream of [N] frames with length fields below [0xFFFF] and
    nothing else decodes to [N] packets, in order, each with the payload of
    its frame, and no error. *)
Theorem X14_ReadAllPackets_whole_stream (fs : list frame) :
  Forall wf_frame fs ->
  Forall (fun f => rawDataLen (fst f) < 65535) fs ->
  exists ps : list Packet,
    ReadAllPackets (bytesDecoder (stream fs)) = (ps, None, bytesDecoder []) /\
    length ps = length fs /\
    map Data ps = map snd fs /\
    map DataLen ps = map (fun f => Z.of_nat (length (snd f))) fs.
Proof.
  intros Hwf Hsmall. exists (map packetOf fs).
  rewrite <- (app_nil_r (stream fs)).
  rewrite (ReadAllPackets_after_stream fs [] io.EOF (bytesDecoder [])
             Hwf Hsmall ReadPacket_exhausted).
  split; [reflexivity|]. split; [apply length_map|].
  rewrite !map_map. split; [reflexivity|].
  apply map_ext_in. intros [header data] Hin. cbn [packetOf DataLen setData fst snd].
  rewrite Forall_forall in Hwf, Hsmall.
  destruct (Hwf _ Hin) as [_ Hlen]. specialize (Hsmall _ Hin).
  cbn [fst snd] in *. rewrite DataLen_no_wrap by exact Hsmall.
  symmetry. exact Hlen.
Qed.

Lemma X14_ReadAllPackets_whole_stream_witness :
  exists ps : list Packet,
    ReadAllPackets (bytesDecoder (stream [fixtureFrame; fixtureFrame]))
    = (ps, None, bytesDecoder []) /\
    length ps = length [fixtureFrame; fixtureFrame] /\
    map Data ps = map snd [fixtureFrame; fixtureFrame] /\
    map DataLen ps
    = map (fun f => Z.of_nat (length (snd f))) [fixtureFrame; fixtureFrame].
Proof.
  apply (X14_ReadAllPackets_whole_stream [fixtureFrame; fixtureFrame]);
    apply wf_fixtureFrame.
Defined.

(** X15.  Whole frames followed by one to five stray bytes: [ReadAllPackets]
    returns the packets of the frames together with
    [io.ErrUnexpectedEOF]. *)
Theorem X15_trailing_header_fragment (fs : list frame) (tail : list byte) :
  Forall wf_frame fs ->
  Forall (fun f => rawDataLen (fst f) < 65535) fs ->
  (0 < length tail < 6)%nat ->
  ReadAllPackets (bytesDecoder (stream fs ++ tail))
  = (map packetOf fs, Some io.ErrUnexpectedEOF, bytesDecoder []).
Proof.
  intros Hwf Hsmall Hlen.
  exact (ReadAllPackets_after_stream fs tail _ _ Hwf Hsmall
           (ReadPacket_short_header tail Hlen)).
Qed.

Lemma X15_trailing_header_fragment_witness :
  ReadAllPackets
    (bytesDecoder (stream [fixtureFrame; fixtureFrame] ++ [x08; x01]))
  = (map packetOf [fixtureFrame; fixtureFrame],
     Some io.ErrUnexpectedEOF, bytesDecoder []).
Proof.
  apply (X15_trailing_header_fragment [fixtureFrame; fixtureFrame] [x08; x01]);
    [apply wf_fixtureFrame | apply wf_fixtureFrame | cbn; lia].
Defined.

(** X16.  Whole frames followed by a header and a payload that has begun
    but stops short of its [DataLen]: [ReadAllPackets] returns the packets
    of the frames together with [io.ErrUnexpectedEOF]. *)
Theorem X16_trailing_short_payload
        (fs : list frame) (header data : list byte) :
  Forall wf_frame fs ->
  Forall (fun f => rawDataLen (fst f) < 65535) fs ->
  length header = 6%nat -> data <> [] ->
  Z.of_nat (length data) < DataLen (parseHeader header) ->
  ReadAllPackets (bytesDecoder (stream fs ++ header ++ data))
  = (map packetOf fs, Some io.ErrUnexpectedEOF, bytesDecoder []).
Proof.
  intros Hwf Hsmall H6 Hne Hlt.
  exact (ReadAllPackets_after_stream fs (header ++ data) _ _ Hwf Hsmall
           (ReadPacket_short_payload header data H6 Hne Hlt)).
Qed.

Lemma X16_trailing_short_payload_witness :
  ReadAllPackets
    (bytesDecoder (stream [fixtureFrame; fixtureFrame]
                   ++ firstn 6 fixture ++ [xde; xad]))
  = (map packetOf [fixtureFrame; fixtureFrame],
     Some io.ErrUnexpectedEOF, bytesDecoder []).
Proof.
  apply (X16_trailing_short_payload
           [fixtureFrame; fixtureFrame] (firstn 6 fixture) [xde; xad]);
    [apply wf_fixtureFrame | apply wf_fixtureFrame | reflexivity
    | discriminate | reflexivity].
Defined.

(** X17.  Whole frames followed by a bare header whose payload is missing
    altogether: the payload read ends on [io.EOF] itself, so
    [ReadAllPackets] returns the packets of the frames and no error; the
    header is used up without a packet or an error for it. *)
Theorem X17_trailing_bare_header (fs : list frame) (header : list byte) :
  Forall wf_frame fs ->
  Forall (fun f => rawDataLen (fst f) < 65535) fs ->
  length header = 6%nat ->
  rawDataLen header < 65535 ->
  ReadPacket (bytesDecoder header) = (inr io.EOF, bytesDecoder []) /\
  ReadAllPackets (bytesDecoder (stream fs ++ header))
  = (map packetOf fs, None, bytesDecoder []).
Proof.
  intros Hwf Hsmall H6 Hraw.
  assert (Hpos : 0 < DataLen (parseHeader header)).
  { rewrite DataLen_no_wrap by exact Hraw.
    pose proof (rawDataLen_range header). lia. }
  pose proof (ReadPacket_missing_payload header H6 Hpos) as Hread.
  split; [exact Hread|].
  exact (ReadAllPackets_after_stream fs header _ _ Hwf Hsmall Hread).
Qed.

Lemma X17_trailing_bare_header_witness :
  ReadPacket (bytesDecoder (firstn 6 fixture))
  = (inr io.EOF, bytesDecoder []) /\
  ReadAllPackets
    (bytesDecoder (stream [fixtureFrame; fixtureFrame] ++ firstn 6 fixture))
  = (map packetOf [fixtureFrame; fixtureFrame], None, bytesDecoder []).
Proof.
  apply (X17_trailing_bare_header
           [fixtureFrame; fixtureFrame] (firstn 6 fixture));
    [apply wf_fixtureFrame | apply wf_fixtureFrame | reflexivity | reflexivity].
Defined.

(** X18.  A fault of the source is handed on as it is, with the packets
    read before it: when the source delivers whole frames, then fewer than
    six further bytes (or none), and then reports an error that is not an
    [io.EOF], [ReadAllPackets] returns the packets of the frames and that
    very error. *)
Theorem X18_source_fault_surfaces
        (fs : list frame) (tail : list byte) (fin : io.error) :
  Forall wf_frame fs ->
  Forall (fun f => rawDataLen (fst f) < 65535) fs ->
  (length tail < 6)%nat ->
  errors.Is fin io.EOF = false ->
  ReadAllPackets (NewDecoder (io.mkReader (stream fs ++ tail) fin))
  = (map packetOf fs, Some fin, NewDecoder (io.mkReader [] fin)).
Proof.
  intros Hwf Hsmall Hlen Hnot.
  assert (Heqb : io.error_eqb fin io.EOF = false).
  { destruct fin; cbn in Hnot |- *; try reflexivity; try discriminate Hnot. }
  assert (Hread : ReadPacket (NewDecoder (io.mkReader tail fin))
                  = (inr fin, NewDecoder (io.mkReader [] fin))).
  { unfold ReadPacket, io.ReadFull, NewDecoder. cbn [r io.pending io.final].
    destruct tail as [|b0 [|b1 [|b2 [|b3 [|b4 [|b5 tail]]]]]];
      cbn [length] in Hlen; try lia; cbn [length Nat.leb];
      repeat rewrite Heqb; reflexivity. }
  unfold ReadAllPackets.
  rewrite (ReadAllPackets_loop_reads _ _ _
             (reads_stream_app fs tail fin Hwf Hsmall)).
  rewrite (ReadAllPackets_loop_error _ _ _ _ Hread), Hnot. reflexivity.
Qed.

Lemma X18_source_fault_surfaces_witness :
  ReadAllPackets
    (NewDecoder (io.mkReader (stream [fixtureFrame; fixtureFrame] ++ [x08])
                             faults.reset))
  = (map packetOf [fixtureFrame; fixtureFrame], Some faults.reset,
     NewDecoder (io.mkReader [] faults.reset)).
Proof.
  apply (X18_source_fault_surfaces
           [fixtureFrame; fixtureFrame] [x08] faults.reset);
    [apply wf_fixtureFrame | apply wf_fixtureFrame | cbn; lia | reflexivity].
Defined.
